(** * MyToDo: the task store of [src/App.tsx]

    Shallow embedding of the single React component [App]: the task record,
    the component state ([task], [tasks], [editingTask], [animations]), the
    AsyncStorage entry under the key ['tasks'], the handlers [addTask],
    [toggleCompletion], [editTask], [updateTask], [deleteTask] and the load
    path [loadTasks].

    JS strings are modelled as Rocq [string]s, i.e. sequences of code units
    in the Latin-1 range U+0000..U+00FF. [JSON.stringify] / [JSON.parse] are
    modelled on JSON values built from null, booleans, number lexemes,
    strings, arrays and objects (objects as association lists in textual
    order). *)

From Stdlib Require Import Ascii String List Arith Lia.
From stdpp Require Import base gmap strings pretty.
Import ListNotations.
Set Warnings "-register-all".
(* stdpp marks string append [simpl never]; the proofs below compute with it. *)
#[local] Arguments String.append : simpl nomatch.

(* ------------------------------------------------------------------ *)
(** ** Characters *)

Definition chr (n : nat) : ascii := ascii_of_nat n.
Definition is_code (c : ascii) (n : nat) : bool := Nat.eqb (nat_of_ascii c) n.

Definition c_dq : ascii := chr 34.     (* double quote *)
Definition c_bs : ascii := chr 92.     (* backslash *)

(** JSON insignificant whitespace: space, tab, line feed, carriage return. *)
Definition is_json_ws (c : ascii) : bool :=
  is_code c 32 || is_code c 9 || is_code c 10 || is_code c 13.

Fixpoint skip_ws (s : string) : string :=
  match s with
  | EmptyString => EmptyString
  | String c r => if is_json_ws c then skip_ws r else s
  end.

(* ------------------------------------------------------------------ *)
(** ** JSON values, [JSON.stringify] *)

Inductive jvalue : Type :=
| JNull
| JBool (b : bool)
| JNum (lexeme : string)
| JStr (s : string)
| JArr (vs : list jvalue)
| JObj (kvs : list (string * jvalue)).

Definition hex_digit (n : nat) : ascii :=
  if n <? 10 then chr (48 + n) else chr (87 + n).   (* lower-case a..f *)

(** [JSON.stringify] of one code unit inside a string literal. *)
Definition quote_char (c : ascii) : string :=
  let n := nat_of_ascii c in
  if n =? 34 then String c_bs (String c_dq EmptyString)
  else if n =? 92 then String c_bs (String c_bs EmptyString)
  else if n =? 8 then String c_bs (String "b" EmptyString)
  else if n =? 9 then String c_bs (String "t" EmptyString)
  else if n =? 10 then String c_bs (String "n" EmptyString)
  else if n =? 12 then String c_bs (String "f" EmptyString)
  else if n =? 13 then String c_bs (String "r" EmptyString)
  else if n <? 32 then
    String c_bs (String "u" (String "0" (String "0"
      (String (hex_digit (n / 16)) (String (hex_digit (n mod 16)) EmptyString)))))
  else String c EmptyString.

Fixpoint quote_body (s : string) : string :=
  match s with
  | EmptyString => EmptyString
  | String c r => append (quote_char c) (quote_body r)
  end.

Definition quote (s : string) : string :=
  String c_dq (append (quote_body s) (String c_dq EmptyString)).

Fixpoint stringify (v : jvalue) : string :=
  match v with
  | JNull => "null"
  | JBool true => "true"
  | JBool false => "false"
  | JNum l => l
  | JStr s => quote s
  | JArr [] => "[]"
  | JArr (w :: ws) =>
      let fix elems_tail (ws : list jvalue) : string :=
        match ws with
        | [] => "]"
        | w :: ws => String "," (append (stringify w) (elems_tail ws))
        end in
      String "[" (append (stringify w) (elems_tail ws))
  | JObj [] => "{}"
  | JObj ((k, w) :: kvs) =>
      let fix members_tail (kvs : list (string * jvalue)) : string :=
        match kvs with
        | [] => "}"
        | (k, w) :: kvs =>
            String "," (append (quote k) (String ":" (append (stringify w) (members_tail kvs))))
        end in
      String "{" (append (quote k) (String ":" (append (stringify w) (members_tail kvs))))
  end.

(* ------------------------------------------------------------------ *)
(** ** [JSON.parse] *)

Definition hex_val (c : ascii) : option nat :=
  let n := nat_of_ascii c in
  if (48 <=? n) && (n <=? 57) then Some (n - 48)
  else if (97 <=? n) && (n <=? 102) then Some (n - 87)
  else if (65 <=? n) && (n <=? 70) then Some (n - 55)
  else None.

Definition hex4 (a b c d : ascii) : option nat :=
  match hex_val a, hex_val b, hex_val c, hex_val d with
  | Some x, Some y, Some z, Some w => Some (((x * 16 + y) * 16 + z) * 16 + w)
  | _, _, _, _ => None
  end.

(** Single-character escapes: backslash followed by a double quote, a
    backslash, a slash, or one of b f n r t. *)
Definition unescape (e : ascii) : option ascii :=
  let m := nat_of_ascii e in
  if m =? 34 then Some c_dq
  else if m =? 92 then Some c_bs
  else if m =? 47 then Some (chr 47)
  else if m =? 98 then Some (chr 8)
  else if m =? 102 then Some (chr 12)
  else if m =? 110 then Some (chr 10)
  else if m =? 114 then Some (chr 13)
  else if m =? 116 then Some (chr 9)
  else None.

Definition cons_char (c : ascii) (o : option (string * string)) : option (string * string) :=
  match o with
  | Some (b, r) => Some (String c b, r)
  | None => None
  end.

(** The body of a string literal, after its opening quote. A [\uXXXX]
    escape above U+00FF denotes a code unit outside the modelled range and
    is not accepted. Raw control characters are a syntax error. *)
Fixpoint parse_string_body (s : string) : option (string * string) :=
  match s with
  | EmptyString => None
  | String c r =>
      let n := nat_of_ascii c in
      if n =? 34 then Some (EmptyString, r)
      else if n =? 92 then
        match r with
        | EmptyString => None
        | String e r' =>
            if is_code e 117 then
              match r' with
              | String h1 (String h2 (String h3 (String h4 r''))) =>
                  match hex4 h1 h2 h3 h4 with
                  | Some code =>
                      if code <? 256 then cons_char (chr code) (parse_string_body r'')
                      else None
                  | None => None
                  end
              | _ => None
              end
            else
              match unescape e with
              | Some c' => cons_char c' (parse_string_body r')
              | None => None
              end
        end
      else if n <? 32 then None
      else cons_char c (parse_string_body r)
  end.

Definition is_digit (c : ascii) : bool :=
  (48 <=? nat_of_ascii c) && (nat_of_ascii c <=? 57).

Fixpoint take_digits (s : string) : string * string :=
  match s with
  | EmptyString => (EmptyString, EmptyString)
  | String c r =>
      if is_digit c then let (d, r') := take_digits r in (String c d, r')
      else (EmptyString, s)
  end.

Definition digits1 (s : string) : option (string * string) :=
  match take_digits s with
  | (EmptyString, _) => None
  | dr => Some dr
  end.

(** The number grammar [-? (0 | [1-9][0-9]* ) (. [0-9]+)? ([eE] [+-]? [0-9]+)?];
    the value is kept as its lexeme. *)
Definition lex_number (s : string) : option (string * string) :=
  let '(sign, s1) :=
    match s with
    | String c r => if is_code c 45 then (String c EmptyString, r) else (EmptyString, s)
    | EmptyString => (EmptyString, s)
    end in
  let int :=
    match s1 with
    | String c r =>
        if is_code c 48 then Some (String c EmptyString, r)
        else if is_digit c then Some (take_digits s1) else None
    | EmptyString => None
    end in
  match int with
  | None => None
  | Some (i, r1) =>
      let frac :=
        match r1 with
        | String c r =>
            if is_code c 46 then
              match digits1 r with
              | Some (d, r') => Some (String c d, r')
              | None => None
              end
            else Some (EmptyString, r1)
        | EmptyString => Some (EmptyString, r1)
        end in
      match frac with
      | None => None
      | Some (f, r2) =>
          let ex :=
            match r2 with
            | String c r =>
                if is_code c 101 || is_code c 69 then
                  let '(sg, r') :=
                    match r with
                    | String c' r'' =>
                        if is_code c' 43 || is_code c' 45
                        then (String c' EmptyString, r'') else (EmptyString, r)
                    | EmptyString => (EmptyString, r)
                    end in
                  match digits1 r' with
                  | Some (d, r'') => Some (String c (append sg d), r'')
                  | None => None
                  end
                else Some (EmptyString, r2)
            | EmptyString => Some (EmptyString, r2)
            end in
          match ex with
          | None => None
          | Some (e, r3) => Some (append sign (append i (append f e)), r3)
          end
      end
  end.

Fixpoint strip_prefix (p s : string) : option string :=
  match p, s with
  | EmptyString, _ => Some s
  | String a p', String b s' => if Ascii.eqb a b then strip_prefix p' s' else None
  | String _ _, EmptyString => None
  end.

(** A JSON value, after optional whitespace. [fuel] bounds the recursion;
    [JSON_parse] gives it one more than the input length, and every
    recursive call consumes at least one character. *)
Fixpoint parse_value (fuel : nat) (s : string) {struct fuel} : option (jvalue * string) :=
  match fuel with
  | O => None
  | S f =>
      match skip_ws s with
      | EmptyString => None
      | String c r as s' =>
          if is_code c 123 then
            match skip_ws r with
            | String c' r' =>
                if is_code c' 125 then Some (JObj [], r')
                else match parse_members f r with
                     | Some (kvs, r'') => Some (JObj kvs, r'')
                     | None => None
                     end
            | EmptyString => None
            end
          else if is_code c 91 then
            match skip_ws r with
            | String c' r' =>
                if is_code c' 93 then Some (JArr [], r')
                else match parse_elems f r with
                     | Some (vs, r'') => Some (JArr vs, r'')
                     | None => None
                     end
            | EmptyString => None
            end
          else if is_code c 34 then
            match parse_string_body r with
            | Some (str, r') => Some (JStr str, r')
            | None => None
            end
          else
            match strip_prefix "null" s' with
            | Some r' => Some (JNull, r')
            | None =>
              match strip_prefix "true" s' with
              | Some r' => Some (JBool true, r')
              | None =>
                match strip_prefix "false" s' with
                | Some r' => Some (JBool false, r')
                | None =>
                  match lex_number s' with
                  | Some (l, r') => Some (JNum l, r')
                  | None => None
                  end
                end
              end
            end
      end
  end
(** Array elements: [value (, value)* \]]. *)
with parse_elems (fuel : nat) (s : string) {struct fuel} : option (list jvalue * string) :=
  match fuel with
  | O => None
  | S f =>
      match parse_value f s with
      | None => None
      | Some (v, r) =>
          match skip_ws r with
          | String c r' =>
              if is_code c 44 then
                match parse_elems f r' with
                | Some (vs, r'') => Some (v :: vs, r'')
                | None => None
                end
              else if is_code c 93 then Some ([v], r')
              else None
          | EmptyString => None
          end
      end
  end
(** Object members: [string : value (, string : value)* }]. *)
with parse_members (fuel : nat) (s : string) {struct fuel}
    : option (list (string * jvalue) * string) :=
  match fuel with
  | O => None
  | S f =>
      match skip_ws s with
      | String c r =>
          if is_code c 34 then
            match parse_string_body r with
            | None => None
            | Some (k, r1) =>
                match skip_ws r1 with
                | String c1 r2 =>
                    if is_code c1 58 then
                      match parse_value f r2 with
                      | None => None
                      | Some (v, r3) =>
                          match skip_ws r3 with
                          | String c3 r4 =>
                              if is_code c3 44 then
                                match parse_members f r4 with
                                | Some (kvs, r5) => Some ((k, v) :: kvs, r5)
                                | None => None
                                end
                              else if is_code c3 125 then Some ([(k, v)], r4)
                              else None
                          | EmptyString => None
                          end
                      end
                    else None
                | EmptyString => None
                end
            end
          else None
      | EmptyString => None
      end
  end.

(** [JSON.parse]: [None] stands for the [SyntaxError] it throws. *)
Definition JSON_parse (s : string) : option jvalue :=
  match parse_value (S (String.length s)) s with
  | Some (v, r) =>
      match skip_ws r with
      | EmptyString => Some v
      | String _ _ => None
      end
  | None => None
  end.

Example JSON_parse_null : JSON_parse "null" = Some JNull.
Proof. reflexivity. Qed.
Example JSON_parse_num : JSON_parse " [-1.5e+3, 0, {}] " = Some (JArr [JNum "-1.5e+3"; JNum "0"; JObj []]).
Proof. reflexivity. Qed.
Example JSON_parse_bad : JSON_parse "[1,]" = None.
Proof. reflexivity. Qed.
Example JSON_parse_obj : JSON_parse (stringify (JObj [("id", JStr "1"); ("completed", JBool true)]))
  = Some (JObj [("id", JStr "1"); ("completed", JBool true)]).
Proof. reflexivity. Qed.

(* ------------------------------------------------------------------ *)
(** ** The [Task] type and its JSON form *)

Record Task : Type := mkTask {
  id : string;
  text : string;
  completed : bool
}.

(** A [Task] object as [JSON.stringify] sees it: its three own properties
    in creation order ([{ ...item, f: v }] keeps that order). *)
Definition task_to_json (t : Task) : jvalue :=
  JObj [("id", JStr (id t)); ("text", JStr (text t)); ("completed", JBool (completed t))].

Definition tasks_to_json (ts : list Task) : jvalue := JArr (map task_to_json ts).

(** Reading a JS value back as a [Task[]] (used only to state results). *)
Definition task_of_json (v : jvalue) : option Task :=
  match v with
  | JObj [("id", JStr i); ("text", JStr t); ("completed", JBool b)] => Some (mkTask i t b)
  | _ => None
  end.

Fixpoint tasks_of_jsons (vs : list jvalue) : option (list Task) :=
  match vs with
  | [] => Some []
  | v :: vs' =>
      match task_of_json v, tasks_of_jsons vs' with
      | Some t, Some ts => Some (t :: ts)
      | _, _ => None
      end
  end.

Definition tasks_of_json (v : jvalue) : option (list Task) :=
  match v with
  | JArr vs => tasks_of_jsons vs
  | _ => None
  end.

(** [saveTasks]: the string written under the key ['tasks']. *)
Definition saveTasks (ts : list Task) : string := stringify (tasks_to_json ts).

(* ------------------------------------------------------------------ *)
(** ** JS strings: [trim] and truthiness *)

(** [String.prototype.trim] strips WhiteSpace and LineTerminator code
    units; in the Latin-1 range these are TAB, LF, VT, FF, CR, SPACE and
    NO-BREAK SPACE. *)
Definition is_js_ws (c : ascii) : bool :=
  let n := nat_of_ascii c in
  ((9 <=? n) && (n <=? 13)) || (n =? 32) || (n =? 160).

Fixpoint ltrim (s : string) : string :=
  match s with
  | EmptyString => EmptyString
  | String c r => if is_js_ws c then ltrim r else s
  end.

Fixpoint rtrim (s : string) : string :=
  match s with
  | EmptyString => EmptyString
  | String c r =>
      match rtrim r with
      | EmptyString => if is_js_ws c then EmptyString else String c EmptyString
      | r' => String c r'
      end
  end.

Definition js_trim (s : string) : string := rtrim (ltrim s).

(** A string is truthy iff it is not empty. *)
Definition str_truthy (s : string) : bool :=
  match s with EmptyString => false | String _ _ => true end.

(** [editingTask : string | null] in a boolean position. *)
Definition opt_truthy (o : option string) : bool :=
  match o with Some s => str_truthy s | None => false end.

Example js_trim_spaces : js_trim "  a b  " = "a b".
Proof. reflexivity. Qed.

(* ------------------------------------------------------------------ *)
(** ** Component state *)

(** [fades] holds the fade-out animations started by [deleteTask] whose
    completion callback has not run yet, oldest first: the [taskId] and the
    [tasks] array the callback closes over. All fades last 500 ms, so they
    complete in the order they were started. [storage] is the AsyncStorage
    entry ['tasks']; writes are applied in call order. An [Animated.Value]
    is represented by its numeric value. *)
Record App : Type := mkApp {
  task : string;
  tasks : list Task;
  editingTask : option string;
  animations : gmap string Z;
  storage : option string;
  fades : list (string * list Task)
}.

(** The state of the first render, from the [useState] initial values,
    with [saved] the value stored under ['tasks']. The [loadTasks] that the
    [useEffect] starts at mount has not resolved yet; [mount] below is the
    state once it has. *)
Definition initial_app (saved : option string) : App :=
  mkApp EmptyString [] None ∅ saved [].

(** [onChangeText={(text) => setTask(text)}] *)
Definition setTask (s : string) (st : App) : App :=
  mkApp s (tasks st) (editingTask st) (animations st) (storage st) (fades st).

(** [addTask]; [now] is the value of [Date.now()] when it runs. *)
Definition addTask (now : N) (st : App) : App :=
  if str_truthy (js_trim (task st)) then
    let newTask := mkTask (pretty now) (task st) false in
    let updatedTasks := tasks st ++ [newTask] in
    mkApp EmptyString updatedTasks (editingTask st)
      (<[id newTask := 1%Z]> (animations st))
      (Some (saveTasks updatedTasks)) (fades st)
  else st.

Definition toggle_item (taskId : string) (item : Task) : Task :=
  if String.eqb (id item) taskId
  then mkTask (id item) (text item) (negb (completed item)) else item.

Definition toggleCompletion (taskId : string) (st : App) : App :=
  let updatedTasks := map (toggle_item taskId) (tasks st) in
  mkApp (task st) updatedTasks (editingTask st) (animations st)
    (Some (saveTasks updatedTasks)) (fades st).

Definition editTask (taskId : string) (st : App) : App :=
  match List.find (fun item => String.eqb (id item) taskId) (tasks st) with
  | Some taskToEdit =>
      mkApp (text taskToEdit) (tasks st) (Some taskId) (animations st)
        (storage st) (fades st)
  | None => st
  end.

Definition retext_item (target newText : string) (item : Task) : Task :=
  if String.eqb (id item) target then mkTask (id item) newText (completed item) else item.

Definition updateTask (st : App) : App :=
  if str_truthy (js_trim (task st)) && opt_truthy (editingTask st) then
    match editingTask st with
    | Some target =>
        let updatedTasks := map (retext_item target (task st)) (tasks st) in
        mkApp EmptyString updatedTasks None (animations st)
          (Some (saveTasks updatedTasks)) (fades st)
    | None => st
    end
  else st.

(** [deleteTask]: with an animation handle for [taskId], starts the fade;
    the removal itself is the completion callback, [fade_complete]. *)
Definition deleteTask (taskId : string) (st : App) : App :=
  match animations st !! taskId with
  | Some _ =>
      mkApp (task st) (tasks st) (editingTask st) (animations st) (storage st)
        (fades st ++ [(taskId, tasks st)])
  | None => st
  end.

(** The completion callback of the oldest running fade: filters the
    [tasks] array it closed over, saves it, and drops the animation entry
    (the latter through a functional update of the current map). *)
Definition fade_complete (st : App) : App :=
  match fades st with
  | (taskId, closedTasks) :: rest =>
      let updatedTasks := filter (fun item => negb (String.eqb (id item) taskId)) closedTasks in
      mkApp (task st) updatedTasks (editingTask st)
        (delete taskId (animations st)) (Some (saveTasks updatedTasks)) rest
  | [] => st
  end.

(** The button: [onPress={editingTask ? updateTask : addTask}]. *)
Definition press (now : N) (st : App) : App :=
  if opt_truthy (editingTask st) then updateTask st else addTask now st.

Inductive event : Type :=
| ESetText (s : string)
| EAdd (now : N)
| EToggle (taskId : string)
| EEdit (taskId : string)
| EUpdate
| EDelete (taskId : string)
| EFadeDone.

Definition step (st : App) (e : event) : App :=
  match e with
  | ESetText s => setTask s st
  | EAdd now => addTask now st
  | EToggle i => toggleCompletion i st
  | EEdit i => editTask i st
  | EUpdate => updateTask st
  | EDelete i => deleteTask i st
  | EFadeDone => fade_complete st
  end.

Definition run (st : App) (es : list event) : App := fold_left step es st.

(* ------------------------------------------------------------------ *)
(** ** [loadTasks] *)

Inductive js_error : Type := SyntaxError | TypeError.

(** What one run of [loadTasks] does, given [AsyncStorage.getItem('tasks')]:
    - [LoadSkipped]: [savedTasks] is [null] or [''], nothing is set;
    - [LoadSyntaxError]: [JSON.parse] throws, nothing is set;
    - [LoadSetTasks v keys]: [setTasks(v)] has run with the parsed value;
      [keys = Some ks] when the [forEach] loop completed and
      [setAnimations] installed one entry per key of [ks] (the values of
      [task.id], [None] for [undefined]); [keys = None] when the loop threw
      a [TypeError] (no [forEach] on a non-array, or [null.id]). *)
Inductive load_outcome : Type :=
| LoadSkipped
| LoadSyntaxError
| LoadSetTasks (v : jvalue) (keys : option (list (option jvalue))).

(** Property read on a parsed value; [JSON.parse] keeps the last of
    duplicate keys. [None]: reading a property of [null] throws. *)
Definition assoc_last (k : string) (kvs : list (string * jvalue)) : option jvalue :=
  fold_left (fun acc kv => if String.eqb (fst kv) k then Some (snd kv) else acc) kvs None.

Definition js_get (v : jvalue) (k : string) : option (option jvalue) :=
  match v with
  | JNull => None
  | JObj kvs => Some (assoc_last k kvs)
  | _ => Some None
  end.

(** [parsedTasks.forEach((task) => newAnimations.set(task.id, ...))]; the
    argument [task.completed ? 1 : 1] reads a property of the same
    receiver, which cannot throw once [task.id] did not. *)
Fixpoint forEach_ids (vs : list jvalue) : option (list (option jvalue)) :=
  match vs with
  | [] => Some []
  | v :: vs' =>
      match js_get v "id" with
      | None => None
      | Some k =>
          match forEach_ids vs' with
          | Some ks => Some (k :: ks)
          | None => None
          end
      end
  end.

Definition loadTasks (savedTasks : option string) : load_outcome :=
  match savedTasks with
  | None => LoadSkipped
  | Some s =>
      if str_truthy s then
        match JSON_parse s with
        | None => LoadSyntaxError
        | Some parsedTasks =>
            LoadSetTasks parsedTasks
              (match parsedTasks with
               | JArr vs => forEach_ids vs
               | _ => None
               end)
        end
      else LoadSkipped
  end.

(** The error the load's promise rejects with, if any. *)
Definition load_error (o : load_outcome) : option js_error :=
  match o with
  | LoadSkipped => None
  | LoadSyntaxError => Some SyntaxError
  | LoadSetTasks _ (Some _) => None
  | LoadSetTasks _ None => Some TypeError
  end.

(** The [tasks] state after the load, given its value before. *)
Definition tasks_after_load (prior : jvalue) (o : load_outcome) : jvalue :=
  match o with
  | LoadSetTasks v _ => v
  | _ => prior
  end.

(** The map [loadTasks] builds: [newAnimations.set(task.id, new
    Animated.Value(task.completed ? 1 : 1))] for each task in order. *)
Definition anims_of (ts : list Task) : gmap string Z :=
  fold_left (fun m t => <[id t := 1%Z]> m) ts ∅.

(** The state once the mount-time [loadTasks] has resolved, before any user
    event. With nothing stored, or a stored value that is not JSON, nothing
    is set. When the stored value is an array of task objects (each with
    exactly the keys [id], [text], [completed], as [saveTasks] writes them),
    [setTasks] installs them and [setAnimations] a fresh map with one entry
    per id. [None]: the load installs a value this model does not represent
    as a [Task] list (any other JSON value, with or without the
    [TypeError] of the loop). *)
Definition mount (saved : option string) : option App :=
  match loadTasks saved with
  | LoadSetTasks v (Some _) =>
      match tasks_of_json v with
      | Some ts => Some (mkApp EmptyString ts None (anims_of ts) saved [])
      | None => None
      end
  | LoadSetTasks _ None => None
  | LoadSkipped | LoadSyntaxError => Some (initial_app saved)
  end.

(* ------------------------------------------------------------------ *)
(** ** Sanity checks on concrete runs *)

Example scenario_buy_milk :
  let st := run (initial_app None)
              [ESetText "Buy milk"; EAdd 7; EToggle "7"; EEdit "7";
               ESetText "Buy oat milk"; EUpdate] in
  tasks st = [mkTask "7" "Buy oat milk" true] /\ editingTask st = None /\ task st = EmptyString.
Proof. vm_compute. auto. Qed.

Example scenario_delete :
  tasks (run (initial_app None) [ESetText "A"; EAdd 1; EDelete "1"; EFadeDone]) = [].
Proof. reflexivity. Qed.

Example load_roundtrip_small :
  loadTasks (Some (saveTasks [mkTask "1" "a\b" false]))
  = LoadSetTasks (tasks_to_json [mkTask "1" "a\b" false]) (Some [Some (JStr "1")]).
Proof. reflexivity. Qed.

(* ------------------------------------------------------------------ *)
(** ** Auxiliary definitions for the serialisation proofs *)

Fixpoint elems_tail (ws : list jvalue) : string :=
  match ws with
  | [] => "]"
  | w :: ws => String "," (append (stringify w) (elems_tail ws))
  end.

Fixpoint members_tail (kvs : list (string * jvalue)) : string :=
  match kvs with
  | [] => "}"
  | (k, w) :: kvs =>
      String "," (append (quote k) (String ":" (append (stringify w) (members_tail kvs))))
  end.

(** Nesting measure bounding the fuel [parse_value] needs. *)
Fixpoint jsize (v : jvalue) : nat :=
  match v with
  | JArr vs =>
      S ((fix go (vs : list jvalue) : nat :=
            match vs with [] => 0 | w :: ws => S (jsize w + go ws) end) vs)
  | JObj kvs =>
      S ((fix go (kvs : list (string * jvalue)) : nat :=
            match kvs with [] => 0 | (_, w) :: ws => S (jsize w + go ws) end) kvs)
  | _ => 0
  end.

Fixpoint elems_size (vs : list jvalue) : nat :=
  match vs with [] => 0 | w :: ws => S (jsize w + elems_size ws) end.

Fixpoint members_size (kvs : list (string * jvalue)) : nat :=
  match kvs with [] => 0 | (_, w) :: ws => S (jsize w + members_size ws) end.

(** Values without number lexemes: a lexeme followed by digits would be
    read back as one longer number, and the task encoding has none. *)
Fixpoint no_num (v : jvalue) : bool :=
  match v with
  | JNum _ => false
  | JArr vs =>
      (fix go (vs : list jvalue) : bool :=
         match vs with [] => true | w :: ws => no_num w && go ws end) vs
  | JObj kvs =>
      (fix go (kvs : list (string * jvalue)) : bool :=
         match kvs with [] => true | (_, w) :: ws => no_num w && go ws end) kvs
  | _ => true
  end.

Section JValueInd.
Variable P : jvalue -> Prop.
Hypothesis HNull : P JNull.
Hypothesis HBool : forall b, P (JBool b).
Hypothesis HNum : forall l, P (JNum l).
Hypothesis HStr : forall s, P (JStr s).
Hypothesis HArr : forall vs, Forall P vs -> P (JArr vs).
Hypothesis HObj : forall kvs, Forall (fun kv => P (snd kv)) kvs -> P (JObj kvs).

Fixpoint jvalue_ind' (v : jvalue) : P v :=
  match v with
  | JNull => HNull
  | JBool b => HBool b
  | JNum l => HNum l
  | JStr s => HStr s
  | JArr vs =>
      HArr vs ((fix go (vs : list jvalue) : Forall P vs :=
                  match vs with
                  | [] => @List.Forall_nil _ _
                  | w :: ws => @List.Forall_cons _ _ w ws (jvalue_ind' w) (go ws)
                  end) vs)
  | JObj kvs =>
      HObj kvs ((fix go (kvs : list (string * jvalue)) : Forall (fun kv => P (snd kv)) kvs :=
                   match kvs with
                   | [] => @List.Forall_nil _ _
                   | kv :: ws => @List.Forall_cons _ _ kv ws (jvalue_ind' (snd kv)) (go ws)
                   end) kvs)
  end.
End JValueInd.

(* ------------------------------------------------------------------ *)
(** ** Serialisation lemmas *)

Lemma str_app_assoc (a b c : string) : append (append a b) c = append a (append b c).
Proof. induction a as [|x a IH]; cbn; [reflexivity | f_equal; exact IH]. Qed.

Lemma stringify_arr_cons w ws :
  stringify (JArr (w :: ws)) = String "[" (append (stringify w) (elems_tail ws)).
Proof. reflexivity. Qed.

Lemma stringify_obj_cons k w kvs :
  stringify (JObj ((k, w) :: kvs))
  = String "{" (append (quote k) (String ":" (append (stringify w) (members_tail kvs)))).
Proof. reflexivity. Qed.

Lemma jsize_arr vs : jsize (JArr vs) = S (elems_size vs).
Proof. reflexivity. Qed.

Lemma jsize_obj kvs : jsize (JObj kvs) = S (members_size kvs).
Proof. reflexivity. Qed.

Lemma no_num_arr w ws : no_num (JArr (w :: ws)) = no_num w && no_num (JArr ws).
Proof. reflexivity. Qed.

Lemma no_num_obj k w kvs : no_num (JObj ((k, w) :: kvs)) = no_num w && no_num (JObj kvs).
Proof. reflexivity. Qed.

(** Each escaped code unit is read back as itself. *)
Lemma parse_quote_char c r :
  parse_string_body (append (quote_char c) r) = cons_char c (parse_string_body r).
Proof.
  destruct c as [b0 b1 b2 b3 b4 b5 b6 b7].
  destruct b0, b1, b2, b3, b4, b5, b6, b7; reflexivity.
Qed.

Lemma parse_quote_body s rest :
  parse_string_body (append (quote_body s) (String c_dq rest)) = Some (s, rest).
Proof.
  induction s as [|c s IH]; simpl; [reflexivity|].
  rewrite str_app_assoc, parse_quote_char, IH. reflexivity.
Qed.

Lemma quote_app_parse s rest :
  parse_string_body (append (append (quote_body s) (String c_dq EmptyString)) rest)
  = Some (s, rest).
Proof. rewrite str_app_assoc. apply parse_quote_body. Qed.

(** The first character of a number-free serialisation is neither JSON
    whitespace nor a closing bracket or brace. *)
Lemma stringify_head v :
  no_num v = true ->
  exists c r, stringify v = String c r /\ is_json_ws c = false /\
              is_code c 93 = false /\ is_code c 125 = false.
Proof.
  intros Hn. destruct v as [|b|l|s|vs|kvs]; try discriminate.
  - eexists _, _; split; [reflexivity|]; auto.
  - destruct b; eexists _, _; split; try reflexivity; auto.
  - eexists _, _; split; [reflexivity|]; auto.
  - destruct vs; eexists _, _; split; try reflexivity; auto.
  - destruct kvs as [|[k w] kvs]; eexists _, _; split; try reflexivity; auto.
Qed.

(** The round-trip property of one value, for any fuel above its size and
    any text following it. *)
Definition roundtrips (v : jvalue) : Prop :=
  no_num v = true -> forall n rest, jsize v < n ->
  parse_value n (append (stringify v) rest) = Some (v, rest).

Lemma parse_elems_S g s :
  parse_elems (S g) s =
  match parse_value g s with
  | None => None
  | Some (v, r) =>
      match skip_ws r with
      | String c r' =>
          if is_code c 44 then
            match parse_elems g r' with
            | Some (vs, r'') => Some (v :: vs, r'')
            | None => None
            end
          else if is_code c 93 then Some ([v], r')
          else None
      | EmptyString => None
      end
  end.
Proof. reflexivity. Qed.

Lemma parse_members_S g s :
  parse_members (S g) s =
  match skip_ws s with
  | String c r =>
      if is_code c 34 then
        match parse_string_body r with
        | None => None
        | Some (k, r1) =>
            match skip_ws r1 with
            | String c1 r2 =>
                if is_code c1 58 then
                  match parse_value g r2 with
                  | None => None
                  | Some (v, r3) =>
                      match skip_ws r3 with
                      | String c3 r4 =>
                          if is_code c3 44 then
                            match parse_members g r4 with
                            | Some (kvs, r5) => Some ((k, v) :: kvs, r5)
                            | None => None
                            end
                          else if is_code c3 125 then Some ([(k, v)], r4)
                          else None
                      | EmptyString => None
                      end
                  end
                else None
            | EmptyString => None
            end
        end
      else None
  | EmptyString => None
  end.
Proof. reflexivity. Qed.

Lemma parse_elems_ok ws : forall w,
  Forall roundtrips (w :: ws) -> no_num (JArr (w :: ws)) = true ->
  forall m rest, elems_size (w :: ws) < m ->
  parse_elems m (append (append (stringify w) (elems_tail ws)) rest) = Some (w :: ws, rest).
Proof.
  induction ws as [|w' ws IH]; intros w HF Hn m rest Hm;
    apply Forall_cons_1 in HF as [Hw HF];
    rewrite no_num_arr in Hn; apply andb_prop in Hn as [Hnw Hn];
    destruct m as [|g]; try (simpl in Hm; lia);
    rewrite parse_elems_S, str_app_assoc, Hw by (auto; simpl in Hm; lia).
  - reflexivity.
  - cbn [elems_tail append skip_ws is_json_ws]. simpl.
    rewrite IH by (auto; simpl in *; lia). reflexivity.
Qed.

Lemma quote_cons k R :
  append (quote k) R = String c_dq (append (quote_body k) (String c_dq R)).
Proof. unfold quote. cbn [append]. rewrite str_app_assoc. reflexivity. Qed.

Lemma parse_members_ok kvs : forall k w,
  Forall (fun kv => roundtrips (snd kv)) ((k, w) :: kvs) ->
  no_num (JObj ((k, w) :: kvs)) = true ->
  forall m rest, members_size ((k, w) :: kvs) < m ->
  parse_members m
    (append (append (quote k) (String ":" (append (stringify w) (members_tail kvs)))) rest)
  = Some ((k, w) :: kvs, rest).
Proof.
  induction kvs as [|[k' w'] kvs IH]; intros k w HF Hn m rest Hm;
    apply Forall_cons_1 in HF as [Hw HF]; simpl in Hw;
    rewrite no_num_obj in Hn; apply andb_prop in Hn as [Hnw Hn];
    destruct m as [|g]; try (simpl in Hm; lia);
    rewrite parse_members_S, str_app_assoc, quote_cons; simpl;
    rewrite parse_quote_body; simpl;
    rewrite str_app_assoc, Hw by (auto; simpl in Hm; lia).
  - reflexivity.
  - pose proof (IH k' w' HF Hn g rest ltac:(simpl in *; lia)) as E.
    cbn in E |- *.
    replace (is_json_ws ",") with false by reflexivity.
    replace (is_code "," 44) with true by reflexivity.
    cbv beta iota. rewrite E. reflexivity.
Qed.

Lemma parse_value_open_arr f X c r :
  X = String c r -> is_json_ws c = false -> is_code c 93 = false ->
  parse_value (S f) (String "[" X)
  = match parse_elems f X with Some (vs, r'') => Some (JArr vs, r'') | None => None end.
Proof. intros -> Hws H93. simpl. rewrite Hws, H93. reflexivity. Qed.

Lemma parse_value_open_obj f X c r :
  X = String c r -> is_json_ws c = false -> is_code c 125 = false ->
  parse_value (S f) (String "{" X)
  = match parse_members f X with Some (kvs, r'') => Some (JObj kvs, r'') | None => None end.
Proof. intros -> Hws H125. simpl. rewrite Hws, H125. reflexivity. Qed.

Lemma parse_value_stringify v : roundtrips v.
Proof.
  induction v as [| b | l | s | vs IHvs | kvs IHkvs] using jvalue_ind';
    intros Hn n rest Hs; destruct n as [|f]; try (simpl in Hs; lia).
  - reflexivity.
  - destruct b; reflexivity.
  - discriminate.
  - cbn [stringify]. rewrite quote_cons. simpl. rewrite parse_quote_body. reflexivity.
  - destruct vs as [|w ws]; [reflexivity|].
    rewrite stringify_arr_cons. cbn [append].
    pose proof Hn as Hn'. rewrite no_num_arr in Hn'. apply andb_prop in Hn' as [Hnw _].
    destruct (stringify_head w Hnw) as (c & r0 & Hsw & Hws & H93 & _).
    rewrite (parse_value_open_arr f _ c (append (append r0 (elems_tail ws)) rest));
      [| rewrite Hsw; reflexivity | exact Hws | exact H93].
    rewrite parse_elems_ok; auto. rewrite jsize_arr in Hs. lia.
  - destruct kvs as [|[k w] kvs]; [reflexivity|].
    rewrite stringify_obj_cons. cbn [append].
    rewrite (parse_value_open_obj f _ c_dq
               (append (append (append (quote_body k) (String c_dq EmptyString))
                  (String ":" (append (stringify w) (members_tail kvs)))) rest));
      [| reflexivity | reflexivity | reflexivity].
    rewrite parse_members_ok; auto. rewrite jsize_obj in Hs. lia.
Qed.

Lemma str_app_nil (a : string) : append a EmptyString = a.
Proof. induction a as [|x a IH]; cbn; [reflexivity | f_equal; exact IH]. Qed.

Lemma str_length_app (a b : string) : String.length (append a b) = String.length a + String.length b.
Proof. induction a as [|x a IH]; cbn; [reflexivity | f_equal; exact IH]. Qed.

Lemma task_json_len t : 5 <= String.length (stringify (task_to_json t)).
Proof.
  unfold task_to_json. rewrite stringify_obj_cons. cbn [String.length].
  rewrite str_length_app. change (String.length (quote "id")) with 4. lia.
Qed.

Lemma task_json_size t : jsize (task_to_json t) = 4.
Proof. reflexivity. Qed.

Lemma tasks_json_no_num ts : no_num (tasks_to_json ts) = true.
Proof. induction ts as [|t ts IH]; [reflexivity|]. exact IH. Qed.

Lemma elems_tail_tasks_len ts :
  1 + 6 * List.length ts <= String.length (elems_tail (map task_to_json ts)).
Proof.
  induction ts as [|t ts IH]; cbn [map elems_tail String.length List.length]; [lia|].
  rewrite str_length_app. pose proof (task_json_len t). lia.
Qed.

Lemma elems_size_tasks ts : elems_size (map task_to_json ts) = 5 * List.length ts.
Proof. induction ts as [|t ts IH]; cbn [map elems_size List.length]; [reflexivity|]. rewrite task_json_size, IH. lia. Qed.

Lemma saveTasks_fuel ts : jsize (tasks_to_json ts) < S (String.length (saveTasks ts)).
Proof.
  unfold saveTasks, tasks_to_json. rewrite jsize_arr, elems_size_tasks.
  destruct ts as [|t ts]; [cbn; lia|].
  cbn [map]. rewrite stringify_arr_cons. cbn [String.length].
  rewrite str_length_app. pose proof (task_json_len t). pose proof (elems_tail_tasks_len ts).
  cbn [List.length]. lia.
Qed.

Lemma JSON_parse_saveTasks ts : JSON_parse (saveTasks ts) = Some (tasks_to_json ts).
Proof.
  unfold JSON_parse.
  pose proof (parse_value_stringify (tasks_to_json ts) (tasks_json_no_num ts)
                (S (String.length (saveTasks ts))) EmptyString (saveTasks_fuel ts)) as E.
  rewrite str_app_nil in E. fold (saveTasks ts) in E. rewrite E. reflexivity.
Qed.

Lemma forEach_ids_tasks ts :
  forEach_ids (map task_to_json ts) = Some (map (fun t => Some (JStr (id t))) ts).
Proof. induction ts as [|t ts IH]; [reflexivity|]. cbn [map forEach_ids]. rewrite IH. reflexivity. Qed.

Lemma tasks_of_json_to_json ts : tasks_of_json (tasks_to_json ts) = Some ts.
Proof.
  unfold tasks_of_json, tasks_to_json.
  induction ts as [|[i t b] ts IH]; [reflexivity|]. cbn [map tasks_of_jsons]. rewrite IH. reflexivity.
Qed.

Lemma saveTasks_truthy ts : str_truthy (saveTasks ts) = true.
Proof. destruct ts; reflexivity. Qed.

(* ------------------------------------------------------------------ *)
(** ** Adding tasks *)

(** One add: the input is typed ([setTask]) and the add handler runs at
    clock reading [now]. *)
Definition add_op (op : string * N) (st : App) : App := addTask (snd op) (setTask (fst op) st).

Definition run_adds (ops : list (string * N)) (st : App) : App :=
  fold_left (fun st op => add_op op st) ops st.

Definition task_ids (st : App) : list string := map id (tasks st).

Lemma addTask_setTask now raw st :
  str_truthy (js_trim raw) = true ->
  addTask now (setTask raw st) =
  mkApp EmptyString (tasks st ++ [mkTask (pretty now) raw false]) (editingTask st)
    (<[pretty now := 1%Z]> (animations st))
    (Some (saveTasks (tasks st ++ [mkTask (pretty now) raw false]))) (fades st).
Proof. intros H. unfold addTask, setTask. cbn [task tasks]. rewrite H. reflexivity. Qed.

Lemma pretty_N_neq (a b : N) : a <> b -> pretty a <> pretty b.
Proof. intros Hab He. apply Hab. by apply (inj pretty). Qed.

Lemma NoDup_snoc_fresh (l : list string) x : NoDup l -> x ∉ l -> NoDup (l ++ [x]).
Proof.
  intros Hl Hx. apply NoDup_app. split; [exact Hl|]. split.
  - intros y Hy Hy'. apply list_elem_of_singleton in Hy'. subst. contradiction.
  - apply NoDup_singleton.
Qed.

(** C1 (counterexample): two adds whose [Date.now()] readings coincide (two
    presses within the same millisecond) give two tasks with the id ["5"]. *)
Lemma adds_same_clock_duplicate_ids :
  task_ids (run_adds [("a", 5%N); ("b", 5%N)] (initial_app None)) = ["5"; "5"]
  /\ ~ NoDup (task_ids (run_adds [("a", 5%N); ("b", 5%N)] (initial_app None))).
Proof.
  split; [reflexivity|].
  change (task_ids (run_adds [("a", 5%N); ("b", 5%N)] (initial_app None))) with ["5"; "5"].
  intros Hd. apply NoDup_cons in Hd as [Hn _]. apply Hn. left.
Qed.

(** C1 (amended): a sequence of adds whose input trims to a non-empty
    string grows the collection by exactly the number of adds; the ids stay
    pairwise distinct when they were distinct before, the clock readings of
    the adds are pairwise distinct, and none of their decimal forms is
    already an id of the collection. *)
Theorem run_adds_length_and_distinct_ids (ops : list (string * N)) (st : App) :
  Forall (fun op => str_truthy (js_trim (fst op)) = true) ops ->
  List.length (tasks (run_adds ops st)) = List.length (tasks st) + List.length ops
  /\ (NoDup (task_ids st) -> NoDup (map snd ops) ->
      Forall (fun op => pretty (snd op) ∉ task_ids st) ops ->
      NoDup (task_ids (run_adds ops st))).
Proof.
  revert st. induction ops as [|[raw now] ops IH]; intros st Hops.
  - cbn. split; [lia | auto].
  - apply Forall_cons_1 in Hops as [Hop Hops]. cbn [fst] in Hop.
    cbn [run_adds fold_left]. fold (run_adds ops (add_op (raw, now) st)).
    assert (Hstep : add_op (raw, now) st =
      mkApp EmptyString (tasks st ++ [mkTask (pretty now) raw false]) (editingTask st)
        (<[pretty now := 1%Z]> (animations st))
        (Some (saveTasks (tasks st ++ [mkTask (pretty now) raw false]))) (fades st))
      by (apply addTask_setTask; exact Hop).
    destruct (IH (add_op (raw, now) st) Hops) as [Hlen Hnd].
    rewrite Hstep in Hlen, Hnd |- *. cbn [tasks] in Hlen. rewrite length_app in Hlen.
    cbn [List.length] in *.
    split; [lia|].
    intros Hd Ht Hf. apply Forall_cons_1 in Hf as [Hf0 Hf]. cbn [snd] in Hf0.
    cbn [map snd] in Ht. apply NoDup_cons in Ht as [Hnin Ht].
    apply Hnd; [| exact Ht |].
    + unfold task_ids. cbn [tasks]. rewrite map_app. apply NoDup_snoc_fresh; assumption.
    + apply Forall_forall. intros [raw' now'] Hin Hel. cbn [snd] in *.
      unfold task_ids in Hel. cbn [tasks] in Hel. rewrite map_app in Hel.
      apply elem_of_app in Hel as [Hel | Hel].
      * rewrite Forall_forall in Hf. apply (Hf (raw', now') Hin). exact Hel.
      * apply list_elem_of_singleton in Hel. cbn [id] in Hel.
        apply (pretty_N_neq now' now); [| exact Hel].
        intros ->. apply Hnin. apply list_elem_of_In, in_map_iff.
        exists (raw', now). split; [reflexivity|]. apply list_elem_of_In. exact Hin.
Qed.

(** A collection holding the id ["5"], with its animation entry. *)
Definition app_with_5 : App :=
  mkApp "x" [mkTask "5" "old" false] None {[ "5" := 1%Z ]} None [].

(** C3 (counterexample): the new task's id is [Date.now().toString()] and
    is not checked against the collection: adding at clock reading 5 to a
    collection that already holds the id ["5"] creates a second task with
    that id. *)
Lemma add_id_not_fresh :
  tasks (addTask 5 app_with_5) = [mkTask "5" "old" false; mkTask "5" "x" false]
  /\ ~ NoDup (task_ids (addTask 5 app_with_5)).
Proof.
  split; [reflexivity|].
  change (task_ids (addTask 5 app_with_5)) with ["5"; "5"].
  intros Hd. apply NoDup_cons in Hd as [Hn _]. apply Hn. left.
Qed.

(** C3 (amended): with input trimming to a non-empty string, the add
    handler appends exactly one task [{id: Date.now().toString(), text:
    rawText, completed: false}] after the existing ones, which it leaves
    unchanged, persists the whole new collection and clears the input; the
    ids stay distinct when the decimal string of the clock reading is not
    already an id. *)
Theorem addTask_appends (now : N) (raw : string) (st : App) :
  str_truthy (js_trim raw) = true ->
  let st' := addTask now (setTask raw st) in
  tasks st' = tasks st ++ [mkTask (pretty now) raw false]
  /\ storage st' = Some (saveTasks (tasks st'))
  /\ task st' = EmptyString
  /\ editingTask st' = editingTask st
  /\ (NoDup (task_ids st) -> pretty now ∉ task_ids st -> NoDup (task_ids st')).
Proof.
  intros H st'. subst st'. rewrite addTask_setTask by exact H. cbn.
  split; [reflexivity|]. split; [reflexivity|]. split; [reflexivity|]. split; [reflexivity|].
  intros Hd Hn. unfold task_ids. cbn [tasks]. rewrite map_app. apply NoDup_snoc_fresh; assumption.
Qed.

(* ------------------------------------------------------------------ *)
(** ** Toggling *)

Lemma toggle_item_twice taskId t : toggle_item taskId (toggle_item taskId t) = t.
Proof.
  destruct t as [i x b]. unfold toggle_item. cbn [id text completed].
  destruct (String.eqb i taskId) eqn:E; cbn [id text completed]; rewrite ?E, ?negb_involutive; reflexivity.
Qed.

(** C5: toggling the same id twice gives back the collection; one toggle
    flips [completed] on the tasks whose id matches, changes no other
    field or task, and leaves the collection as it is when no task has
    that id. *)
Theorem toggleCompletion_involutive_and_local (taskId : string) (st : App) :
  tasks (toggleCompletion taskId (toggleCompletion taskId st)) = tasks st
  /\ List.length (tasks (toggleCompletion taskId st)) = List.length (tasks st)
  /\ (forall (i : nat) (t : Task), tasks st !! i = Some t ->
        tasks (toggleCompletion taskId st) !! i =
        Some (mkTask (id t) (text t)
                (if String.eqb (id t) taskId then negb (completed t) else completed t)))
  /\ (Forall (fun t => id t <> taskId) (tasks st) ->
        tasks (toggleCompletion taskId st) = tasks st).
Proof.
  unfold toggleCompletion. cbn [tasks]. split; [|split; [|split]].
  - rewrite map_map. erewrite map_ext; [apply map_id|]. intros t. apply toggle_item_twice.
  - apply length_map.
  - intros i t Hi. rewrite list_lookup_fmap. unfold fmap. rewrite Hi. cbn. f_equal.
    destruct t as [x y b]. unfold toggle_item. cbn. destruct (String.eqb x taskId); reflexivity.
  - intros Hall. induction (tasks st) as [|t ts IH]; [reflexivity|].
    apply Forall_cons_1 in Hall as [Ht Hall]. cbn [map]. rewrite IH by exact Hall. f_equal.
    unfold toggle_item. apply String.eqb_neq in Ht. rewrite Ht. reflexivity.
Qed.

(* ------------------------------------------------------------------ *)
(** ** Empty input *)

(** C6: with an input that trims to the empty string, both the add
    handler and the update handler leave the whole state as it is:
    collection, storage, input, edit target and animations. *)
Theorem blank_input_noop (now : N) (st : App) :
  js_trim (task st) = EmptyString ->
  addTask now st = st /\ updateTask st = st.
Proof. intros H. unfold addTask, updateTask. rewrite H. split; reflexivity. Qed.

(* ------------------------------------------------------------------ *)
(** ** Deleting *)

(** A collection with one task ["1"], reached from the empty state. *)
Definition app_one : App := run (initial_app None) [ESetText "A"; EAdd 1].

(** C2 (counterexample): invoking delete does not remove the task; it only
    starts the fade-out, and the task is still in the collection. *)
Lemma delete_not_immediate :
  tasks app_one = [mkTask "1" "A" false]
  /\ tasks (deleteTask "1" app_one) = [mkTask "1" "A" false].
Proof. split; reflexivity. Qed.

(** C2 (amended): without an animation handle for the id, delete does
    nothing; with one, delete starts a fade-out, and when that fade
    completes with no other operation in between, the collection is the
    previous one with the tasks of that id removed (the others unchanged
    and in order), it is persisted, the handle is dropped, and a second
    delete of the same id does nothing. *)
Theorem delete_then_fade_removes (taskId : string) (st : App) :
  (animations st !! taskId = None -> deleteTask taskId st = st)
  /\ (fades st = [] -> is_Some (animations st !! taskId) ->
      let st' := fade_complete (deleteTask taskId st) in
      tasks st' = filter (fun t => negb (String.eqb (id t) taskId)) (tasks st)
      /\ storage st' = Some (saveTasks (tasks st'))
      /\ animations st' = delete taskId (animations st)
      /\ fades st' = []
      /\ deleteTask taskId st' = st').
Proof.
  split.
  - intros H. unfold deleteTask. rewrite H. reflexivity.
  - intros Hf [a Ha] st'. subst st'. unfold deleteTask. rewrite Ha.
    unfold fade_complete. cbn [fades]. rewrite Hf. cbn.
    split; [reflexivity|]. split; [reflexivity|]. split; [reflexivity|]. split; [reflexivity|].
    unfold deleteTask. cbn [animations]. rewrite lookup_delete_eq. reflexivity.
Qed.

(* ------------------------------------------------------------------ *)
(** ** Committing an edit *)

(** A stored collection whose only task carries the empty id; the app
    never creates such an id, but [loadTasks] installs whatever is stored. *)
Definition saved_empty_id : string := saveTasks [mkTask EmptyString "old" false].

Definition app_restored_empty_id : App :=
  mkApp EmptyString [mkTask EmptyString "old" false] None (<[EmptyString := 1%Z]> ∅)
    (Some saved_empty_id) [].

(** C4 (counterexample): after the mount restores the task with the empty
    id, editing it and typing ["new"], the commit button runs [addTask]
    (the empty target is falsy at line 123): the edited task keeps its
    text, a new task is appended and the edit target stays set. *)
Lemma commit_empty_target_adds :
  mount (Some saved_empty_id) = Some app_restored_empty_id
  /\ (let st := run app_restored_empty_id [EEdit EmptyString; ESetText "new"] in
      editingTask st = Some EmptyString
      /\ tasks (press 9 st) = [mkTask EmptyString "old" false; mkTask "9" "new" false]
      /\ editingTask (press 9 st) = Some EmptyString).
Proof. split; [vm_compute; reflexivity|]. cbv zeta. split; [|split]; vm_compute; reflexivity. Qed.

(** C4 (amended): committing through the button with a target id and an
    input that trims to a non-empty string. For a non-empty target (every
    id the add handler creates is a non-empty decimal string) the update
    handler runs: it replaces the text of the tasks with that id by the
    input, keeps their id and [completed], keeps every other task and the
    order, persists the collection and clears the input and the target.
    For the empty target the add handler runs instead: a new task with the
    input is appended and persisted, and the target stays set. *)
Theorem commit_replaces_text (now : N) (raw taskId : string) (st : App) :
  editingTask st = Some taskId -> str_truthy (js_trim raw) = true ->
  let st' := press now (setTask raw st) in
  (taskId <> EmptyString ->
     List.length (tasks st') = List.length (tasks st)
     /\ (forall (i : nat) (t : Task), tasks st !! i = Some t ->
           tasks st' !! i =
           Some (mkTask (id t) (if String.eqb (id t) taskId then raw else text t) (completed t)))
     /\ storage st' = Some (saveTasks (tasks st'))
     /\ task st' = EmptyString
     /\ editingTask st' = None)
  /\ (taskId = EmptyString ->
     tasks st' = tasks st ++ [mkTask (pretty now) raw false]
     /\ storage st' = Some (saveTasks (tasks st'))
     /\ task st' = EmptyString
     /\ editingTask st' = Some EmptyString).
Proof.
  intros He Hraw st'. subst st'. split.
  - intros Hne.
    assert (Htr : opt_truthy (Some taskId) = true) by (destruct taskId; [congruence | reflexivity]).
    assert (Hp : press now (setTask raw st) = updateTask (setTask raw st))
      by (unfold press; cbn [setTask editingTask]; rewrite He, Htr; reflexivity).
    rewrite Hp. unfold updateTask, setTask. cbn [task editingTask tasks]. rewrite He, Hraw, Htr. cbn.
    split; [apply length_map|]. split; [|split; [reflexivity|split; reflexivity]].
    intros i t Hi. rewrite list_lookup_fmap. unfold fmap. rewrite Hi. cbn. f_equal.
    destruct t as [x y b]. unfold retext_item. cbn. destruct (String.eqb x taskId); reflexivity.
  - intros ->. unfold press, setTask. cbn [editingTask]. rewrite He. cbn [opt_truthy str_truthy].
    unfold addTask. cbn [task tasks editingTask]. rewrite Hraw.
    split; [reflexivity|]. split; [reflexivity|]. split; reflexivity.
Qed.

(** C10 (counterexample): after the mount restores the task with the
    empty id, editing it, deleting it (its fade completing) and typing
    ["new"], the target is set and no task matches it; the commit button
    runs [addTask]: a task is appended and the target is not cleared. *)
Lemma commit_empty_target_gone_adds :
  mount (Some saved_empty_id) = Some app_restored_empty_id
  /\ (let st := run app_restored_empty_id
                  [EEdit EmptyString; EDelete EmptyString; EFadeDone; ESetText "new"] in
      tasks st = [] /\ editingTask st = Some EmptyString
      /\ tasks (press 9 st) = [mkTask "9" "new" false]
      /\ editingTask (press 9 st) = Some EmptyString).
Proof. split; [vm_compute; reflexivity|]. cbv zeta. split; [|split; [|split]]; vm_compute; reflexivity. Qed.

(** C10 (amended): committing through the button with an input that trims
    to a non-empty string while the target id matches no task. For a
    non-empty target the collection is left element for element as it is,
    still written to storage, and the input and the target are cleared.
    For the empty target the add handler runs instead: a new task with the
    input is appended and persisted, and the target stays set. *)
Theorem commit_missing_target (now : N) (raw target : string) (st : App) :
  editingTask st = Some target -> str_truthy (js_trim raw) = true ->
  Forall (fun t => id t <> target) (tasks st) ->
  let st' := press now (setTask raw st) in
  (target <> EmptyString ->
     tasks st' = tasks st
     /\ storage st' = Some (saveTasks (tasks st))
     /\ task st' = EmptyString
     /\ editingTask st' = None)
  /\ (target = EmptyString ->
     tasks st' = tasks st ++ [mkTask (pretty now) raw false]
     /\ storage st' = Some (saveTasks (tasks st'))
     /\ task st' = EmptyString
     /\ editingTask st' = Some EmptyString).
Proof.
  intros He Hraw Hall st'. subst st'. split.
  - intros Hne.
    assert (Htr : opt_truthy (Some target) = true) by (destruct target; [congruence | reflexivity]).
    assert (Hp : press now (setTask raw st) = updateTask (setTask raw st))
      by (unfold press; cbn [setTask editingTask]; rewrite He, Htr; reflexivity).
    assert (Hmap : map (retext_item target raw) (tasks st) = tasks st).
    { induction (tasks st) as [|t ts IH]; [reflexivity|].
      apply Forall_cons_1 in Hall as [Ht Hall]. cbn [map]. rewrite IH by exact Hall. f_equal.
      unfold retext_item. apply String.eqb_neq in Ht. rewrite Ht. reflexivity. }
    rewrite Hp. unfold updateTask, setTask. cbn [task editingTask tasks]. rewrite He, Hraw, Htr. cbn.
    rewrite Hmap. split; [reflexivity|]. split; [reflexivity|]. split; reflexivity.
  - intros ->. unfold press, setTask. cbn [editingTask]. rewrite He. cbn [opt_truthy str_truthy].
    unfold addTask. cbn [task tasks editingTask]. rewrite Hraw.
    split; [reflexivity|]. split; [reflexivity|]. split; reflexivity.
Qed.

(* ------------------------------------------------------------------ *)
(** ** Loading *)

(** C7: the string [saveTasks] writes is read back by [loadTasks] as the
    same collection: [setTasks] receives a value with the same tasks in the
    same order with the same [id], [text] and [completed], nothing throws,
    and the animation map gets one entry per task id. *)
Theorem load_after_save_roundtrip (ts : list Task) :
  loadTasks (Some (saveTasks ts))
  = LoadSetTasks (tasks_to_json ts) (Some (map (fun t => Some (JStr (id t))) ts))
  /\ tasks_of_json (tasks_to_json ts) = Some ts.
Proof.
  split; [|apply tasks_of_json_to_json].
  unfold loadTasks. rewrite saveTasks_truthy, JSON_parse_saveTasks.
  unfold tasks_to_json at 2. rewrite forEach_ids_tasks. reflexivity.
Qed.



(* ------------------------------------------------------------------ *)
(** ** Animation handles *)

(** Two tasks added from the empty state, then both deleted while the
    first fade-out is still running (two taps within 500 ms). *)
Definition overlapping_deletes : list event :=
  [ESetText "A"; EAdd 1; ESetText "B"; EAdd 2; EDelete "1"; EDelete "2"; EFadeDone; EFadeDone].

(** C9 (the code's behaviour): both completion callbacks filter the [tasks]
    array they closed over when their delete ran, while the animation map
    is updated from its current value. The second callback writes back
    task ["1"], already removed by the first, whose animation handle is
    gone: the task is in the collection without a handle, and delete on it
    is refused by the handle guard. *)
Theorem overlapping_deletes_lose_handle :
  let st := run (initial_app None) overlapping_deletes in
  tasks st = [mkTask "1" "A" false]
  /\ animations st !! "1" = None
  /\ deleteTask "1" st = st.
Proof. split; [|split]; reflexivity. Qed.

(* ------------------------------------------------------------------ *)
(** ** Witnesses: the theorems with hypotheses, at concrete inputs *)

Lemma run_adds_length_and_distinct_ids_witness :
  Forall (fun op => str_truthy (js_trim (fst op)) = true) [("a", 1%N); ("b", 2%N)]
  /\ List.length (tasks (run_adds [("a", 1%N); ("b", 2%N)] (initial_app None)))
     = List.length (tasks (initial_app None)) + List.length [("a", 1%N); ("b", 2%N)]
  /\ (NoDup (task_ids (initial_app None)) -> NoDup (map snd [("a", 1%N); ("b", 2%N)]) ->
      Forall (fun op => pretty (snd op) ∉ task_ids (initial_app None)) [("a", 1%N); ("b", 2%N)] ->
      NoDup (task_ids (run_adds [("a", 1%N); ("b", 2%N)] (initial_app None)))).
Proof.
  assert (H : Forall (fun op => str_truthy (js_trim (fst op)) = true) [("a", 1%N); ("b", 2%N)])
    by (repeat constructor).
  split; [exact H|].
  exact (run_adds_length_and_distinct_ids [("a", 1%N); ("b", 2%N)] (initial_app None) H).
Defined.

Lemma addTask_appends_witness :
  str_truthy (js_trim "milk") = true
  /\ (let st' := addTask 3 (setTask "milk" (initial_app None)) in
      tasks st' = tasks (initial_app None) ++ [mkTask (pretty 3%N) "milk" false]
      /\ storage st' = Some (saveTasks (tasks st'))
      /\ task st' = EmptyString
      /\ editingTask st' = editingTask (initial_app None)
      /\ (NoDup (task_ids (initial_app None)) -> pretty 3%N ∉ task_ids (initial_app None) ->
          NoDup (task_ids st'))).
Proof. split; [reflexivity|]. exact (addTask_appends 3 "milk" (initial_app None) eq_refl). Defined.

Lemma blank_input_noop_witness :
  js_trim (task (setTask "   " (initial_app None))) = EmptyString
  /\ addTask 9 (setTask "   " (initial_app None)) = setTask "   " (initial_app None)
  /\ updateTask (setTask "   " (initial_app None)) = setTask "   " (initial_app None).
Proof. split; [reflexivity|]. exact (blank_input_noop 9 (setTask "   " (initial_app None)) eq_refl). Defined.

(** The app editing the task ["7"] after a toggle. *)
Definition app_editing_7 : App :=
  run (initial_app None) [ESetText "Buy milk"; EAdd 7; EToggle "7"; EEdit "7"].

Lemma commit_replaces_text_witness :
  editingTask app_editing_7 = Some "7"
  /\ str_truthy (js_trim "Buy oat milk") = true
  /\ (let st' := press 9 (setTask "Buy oat milk" app_editing_7) in
      ("7" <> EmptyString ->
         List.length (tasks st') = List.length (tasks app_editing_7)
         /\ (forall (i : nat) (t : Task), tasks app_editing_7 !! i = Some t ->
               tasks st' !! i =
               Some (mkTask (id t) (if String.eqb (id t) "7" then "Buy oat milk" else text t)
                       (completed t)))
         /\ storage st' = Some (saveTasks (tasks st'))
         /\ task st' = EmptyString
         /\ editingTask st' = None)
      /\ ("7" = EmptyString ->
         tasks st' = tasks app_editing_7 ++ [mkTask (pretty 9%N) "Buy oat milk" false]
         /\ storage st' = Some (saveTasks (tasks st'))
         /\ task st' = EmptyString
         /\ editingTask st' = Some EmptyString)).
Proof.
  assert (He : editingTask app_editing_7 = Some "7") by reflexivity.
  assert (Hr : str_truthy (js_trim "Buy oat milk") = true) by reflexivity.
  split; [exact He|]. split; [exact Hr|].
  exact (commit_replaces_text 9 "Buy oat milk" "7" app_editing_7 He Hr).
Defined.

(** The app editing the id ["8"], which no task carries. *)
Definition app_target_8_gone : App :=
  mkApp "x" [mkTask "7" "a" false] (Some "8") ∅ None [].

Lemma commit_missing_target_witness :
  editingTask app_target_8_gone = Some "8"
  /\ str_truthy (js_trim "new") = true
  /\ Forall (fun t => id t <> "8") (tasks app_target_8_gone)
  /\ (let st' := press 9 (setTask "new" app_target_8_gone) in
      ("8" <> EmptyString ->
         tasks st' = tasks app_target_8_gone
         /\ storage st' = Some (saveTasks (tasks app_target_8_gone))
         /\ task st' = EmptyString
         /\ editingTask st' = None)
      /\ ("8" = EmptyString ->
         tasks st' = tasks app_target_8_gone ++ [mkTask (pretty 9%N) "new" false]
         /\ storage st' = Some (saveTasks (tasks st'))
         /\ task st' = EmptyString
         /\ editingTask st' = Some EmptyString)).
Proof.
  assert (He : editingTask app_target_8_gone = Some "8") by reflexivity.
  assert (Hr : str_truthy (js_trim "new") = true) by reflexivity.
  assert (Hf : Forall (fun t => id t <> "8") (tasks app_target_8_gone))
    by (constructor; [cbn; discriminate | constructor]).
  split; [exact He|]. split; [exact Hr|]. split; [exact Hf|].
  exact (commit_missing_target 9 "new" "8" app_target_8_gone He Hr Hf).
Defined.

(* ------------------------------------------------------------------ *)
(** ** Further properties of the component *)

Lemma find_first {A} (f : A -> bool) (l : list A) x :
  List.find f l = Some x ->
  exists pre post, l = pre ++ x :: post /\ Forall (fun y => f y = false) pre /\ f x = true.
Proof.
  induction l as [|y l IH]; cbn; [discriminate|].
  destruct (f y) eqn:Ey.
  - intros [= <-]. exists [], l. split; [reflexivity|]. split; [constructor | exact Ey].
  - intros H. destruct (IH H) as (pre & post & -> & Hpre & Hx).
    exists (y :: pre), post. split; [reflexivity|]. split; [constructor; assumption | exact Hx].
Qed.

Lemma edit_first_match (taskId : string) (st : App) :
  (Forall (fun t => id t <> taskId) (tasks st) -> editTask taskId st = st)
  /\ (forall t, In t (tasks st) -> id t = taskId ->
      exists pre t' post,
        tasks st = pre ++ t' :: post /\ Forall (fun u => id u <> taskId) pre /\ id t' = taskId
        /\ editTask taskId st
           = mkApp (text t') (tasks st) (Some taskId) (animations st) (storage st) (fades st)).
Proof.
  unfold editTask. split.
  - intros Hall. destruct (List.find _ (tasks st)) as [t|] eqn:E; [|reflexivity].
    apply find_some in E as [Hin Heq]. apply String.eqb_eq in Heq.
    rewrite Forall_forall in Hall. exfalso. apply (Hall t); [apply list_elem_of_In, Hin | exact Heq].
  - intros t Hin Hid. destruct (List.find _ (tasks st)) as [t'|] eqn:E.
    + destruct (find_first _ _ _ E) as (pre & post & Hl & Hpre & Ht').
      exists pre, t', post. apply String.eqb_eq in Ht'.
      split; [exact Hl|]. split; [|split; [exact Ht' | reflexivity]].
      eapply Forall_impl; [exact Hpre|]. intros u Hu. cbn in Hu. apply String.eqb_neq, Hu.
    + exfalso. apply (find_none _ _ E) in Hin. apply String.eqb_neq in Hin. contradiction.
Qed.

(** [editTask] (lines 68-74): with no task of that id it does nothing; else
    it loads the text of the first task with that id into the input and
    makes the id the edit target, touching neither the collection, the
    storage nor the animations. *)
Theorem editTask_loads_first_match (taskId : string) (st : App) :
  (Forall (fun t => id t <> taskId) (tasks st) -> editTask taskId st = st)
  /\ (forall t, In t (tasks st) -> id t = taskId ->
      exists pre t' post,
        tasks st = pre ++ t' :: post /\ Forall (fun u => id u <> taskId) pre /\ id t' = taskId
        /\ editTask taskId st
           = mkApp (text t') (tasks st) (Some taskId) (animations st) (storage st) (fades st)).
Proof. apply edit_first_match. Qed.

Lemma NoDup_ids_inj (l : list Task) a b :
  NoDup (map id l) -> In a l -> In b l -> id a = id b -> a = b.
Proof.
  induction l as [|x l IH]; cbn; [tauto|].
  intros Hd Ha Hb He. apply NoDup_cons in Hd as [Hx Hd].
  destruct Ha as [<- | Ha], Hb as [<- | Hb]; auto.
  - exfalso. apply Hx. rewrite He. apply list_elem_of_In, in_map, Hb.
  - exfalso. apply Hx. rewrite <- He. apply list_elem_of_In, in_map, Ha.
Qed.

(** [editTask] followed by [updateTask] with the loaded text left as it
    is: with distinct ids, a non-empty id and a text that is not blank,
    the collection comes back unchanged (and is written again), and the
    edit state is cleared. *)
Theorem edit_then_commit_unchanged (t : Task) (st : App) :
  NoDup (task_ids st) -> In t (tasks st) -> id t <> EmptyString ->
  str_truthy (js_trim (text t)) = true ->
  let st' := updateTask (editTask (id t) st) in
  tasks st' = tasks st /\ storage st' = Some (saveTasks (tasks st))
  /\ task st' = EmptyString /\ editingTask st' = None.
Proof.
  intros Hd Hin Hne Htxt st'. subst st'.
  destruct (proj2 (edit_first_match (id t) st) t Hin eq_refl)
    as (pre & t' & post & Hl & _ & Hid & ->).
  assert (Ht' : In t' (tasks st)) by (rewrite Hl; apply in_or_app; right; left; reflexivity).
  assert (Heq : t' = t) by (apply (NoDup_ids_inj (tasks st)); assumption). subst t.
  assert (Htr : opt_truthy (Some (id t')) = true) by (destruct (id t'); [congruence | reflexivity]).
  assert (Hmap : map (retext_item (id t') (text t')) (tasks st) = tasks st).
  { rewrite <- (map_id (tasks st)) at 2. apply map_ext_in. intros u Hu.
    unfold retext_item. destruct (String.eqb (id u) (id t')) eqn:E; [|reflexivity].
    apply String.eqb_eq in E. assert (u = t') as -> by (apply (NoDup_ids_inj (tasks st)); assumption).
    destruct t'; reflexivity. }
  unfold updateTask. cbn [task editingTask tasks]. rewrite Htxt, Htr. cbn. rewrite Hmap.
  split; [reflexivity|]. split; [reflexivity|]. split; reflexivity.
Qed.

(** The button (line 123): while the edit target is set (and non-empty)
    it runs [updateTask], which never changes the number of tasks; with no
    target it runs [addTask]. *)
Theorem press_while_editing_never_adds (now : N) (st : App) :
  opt_truthy (editingTask st) = true ->
  press now st = updateTask st
  /\ List.length (tasks (press now st)) = List.length (tasks st).
Proof.
  intros H. unfold press. rewrite H. split; [reflexivity|].
  unfold updateTask. destruct (str_truthy (js_trim (task st)) && opt_truthy (editingTask st)); [|reflexivity].
  destruct (editingTask st); [apply length_map | reflexivity].
Qed.

(** The guard [task.trim()] (lines 40, 78) accepts an input exactly when it
    holds a code unit that is not JS whitespace. *)
Lemma ltrim_nonws s :
  existsb (fun c => negb (is_js_ws c)) (list_ascii_of_string (ltrim s))
  = existsb (fun c => negb (is_js_ws c)) (list_ascii_of_string s).
Proof.
  induction s as [|c s IH]; [reflexivity|]. cbn [ltrim].
  destruct (is_js_ws c) eqn:E; [|reflexivity]. rewrite IH. cbn. rewrite E. reflexivity.
Qed.

Lemma rtrim_truthy s :
  str_truthy (rtrim s) = existsb (fun c => negb (is_js_ws c)) (list_ascii_of_string s).
Proof.
  induction s as [|c s IH]; [reflexivity|]. cbn [rtrim list_ascii_of_string existsb].
  destruct (rtrim s) as [|c' r'] eqn:E; cbn in IH |- *.
  - rewrite <- IH. destruct (is_js_ws c); reflexivity.
  - rewrite <- IH. destruct (negb (is_js_ws c)); reflexivity.
Qed.

Theorem trim_guard_nonblank (s : string) :
  str_truthy (js_trim s) = existsb (fun c => negb (is_js_ws c)) (list_ascii_of_string s).
Proof. unfold js_trim. rewrite rtrim_truthy. apply ltrim_nonws. Qed.

Lemma forEach_ids_spec (vs : list jvalue) :
  (forEach_ids vs = None <-> In JNull vs)
  /\ (forall ks, forEach_ids vs = Some ks -> List.length ks = List.length vs).
Proof.
  induction vs as [|v vs [IH1 IH2]]; cbn [forEach_ids].
  - split; [split; [discriminate | intros []] |]. intros ks [= <-]. reflexivity.
  - destruct (js_get v "id") as [k|] eqn:Hg.
    + assert (Hv : v <> JNull) by (intros ->; discriminate).
      destruct (forEach_ids vs) as [ks|] eqn:E.
      * split.
        -- split; [discriminate|]. intros [Hc | Hc]; [congruence | apply IH1 in Hc; discriminate].
        -- intros ks' [= <-]. cbn. f_equal. apply IH2. reflexivity.
      * split; [split; [intros _; right; apply IH1; reflexivity | reflexivity] | discriminate].
    + assert (Hv : v = JNull) by (destruct v; cbn in Hg; congruence).
      split; [split; [intros _; left; congruence | reflexivity] | discriminate].
Qed.

(** [loadTasks] (lines 17-29) on a payload that parses to an array: the
    array is installed as the collection whatever its elements; the
    [forEach] loop throws a [TypeError] exactly when an element is [null],
    and otherwise registers one animation key per element. *)
Theorem load_array_payload (s : string) (vs : list jvalue) :
  JSON_parse s = Some (JArr vs) ->
  (forall prior, tasks_after_load prior (loadTasks (Some s)) = JArr vs)
  /\ (load_error (loadTasks (Some s)) = Some TypeError <-> In JNull vs)
  /\ (forall ks, loadTasks (Some s) = LoadSetTasks (JArr vs) (Some ks) ->
        List.length ks = List.length vs).
Proof.
  intros Hp. destruct s as [|c r]; [discriminate|].
  destruct (forEach_ids_spec vs) as [H1 H2].
  unfold loadTasks. cbn [str_truthy]. rewrite Hp.
  split; [reflexivity|]. split.
  - cbn [load_error]. rewrite <- H1. destruct (forEach_ids vs); split; congruence.
  - intros ks [= Hk]. apply H2. exact Hk.
Qed.

(** Operations that the user runs one after another, each delete being
    followed by the completion of its own fade before anything else. *)
Inductive op : Type :=
| OSetText (s : string)
| OAdd (now : N)
| OToggle (taskId : string)
| OEdit (taskId : string)
| OUpdate
| ODelete (taskId : string).

Definition op_step (st : App) (o : op) : App :=
  match o with
  | OSetText s => setTask s st
  | OAdd now => addTask now st
  | OToggle i => toggleCompletion i st
  | OEdit i => editTask i st
  | OUpdate => updateTask st
  | ODelete i => fade_complete (deleteTask i st)
  end.

Definition run_ops (st : App) (os : list op) : App := fold_left op_step os st.

(** Every task has an animation handle and no fade is pending. *)
Definition handles_ok (st : App) : Prop :=
  fades st = [] /\ Forall (fun t => is_Some (animations st !! id t)) (tasks st).

Lemma handles_ok_step st o : handles_ok st -> handles_ok (op_step st o).
Proof.
  intros [Hf Hall]. destruct o as [s | now | i | i | | i]; cbn [op_step].
  - split; assumption.
  - unfold addTask. destruct (str_truthy (js_trim (task st))); [|split; assumption].
    split; [exact Hf|]. cbn [tasks animations]. apply Forall_app. split.
    + eapply Forall_impl; [exact Hall|]. intros t Ht. apply lookup_insert_is_Some'. right. exact Ht.
    + constructor; [|constructor]. apply lookup_insert_is_Some'. left. reflexivity.
  - split; [exact Hf|]. cbn [tasks animations]. apply Forall_map.
    eapply Forall_impl; [exact Hall|]. intros t Ht.
    unfold toggle_item. destruct (String.eqb (id t) i); exact Ht.
  - unfold editTask. destruct (List.find _ _); split; assumption.
  - unfold updateTask. destruct (_ && _); [|split; assumption].
    destruct (editingTask st) as [target|]; [|split; assumption].
    split; [exact Hf|]. cbn [tasks animations]. apply Forall_map.
    eapply Forall_impl; [exact Hall|]. intros t Ht.
    unfold retext_item. destruct (String.eqb (id t) target); exact Ht.
  - unfold deleteTask. destruct (animations st !! i) eqn:Ha.
    + unfold fade_complete. cbn [fades]. rewrite Hf. split; [reflexivity|].
      cbn [app fades tasks animations]. apply Forall_forall. intros t Ht.
      apply list_elem_of_filter in Ht as [Hne Ht].
      destruct (String.eqb (id t) i) eqn:E; [destruct Hne|]. apply String.eqb_neq in E.
      rewrite lookup_delete_ne by congruence.
      rewrite Forall_forall in Hall. apply Hall, Ht.
    + unfold fade_complete. rewrite Hf. split; assumption.
Qed.

Lemma anims_fold_mono (ts : list Task) (m : gmap string Z) (k : string) :
  is_Some (m !! k) -> is_Some (fold_left (fun m t => <[id t := 1%Z]> m) ts m !! k).
Proof.
  revert m. induction ts as [|t ts IH]; intros m H; [exact H|].
  cbn [fold_left]. apply IH, lookup_insert_is_Some'. right. exact H.
Qed.

Lemma anims_of_all (ts : list Task) : Forall (fun t => is_Some (anims_of ts !! id t)) ts.
Proof.
  unfold anims_of. generalize (∅ : gmap string Z) as m.
  induction ts as [|t ts IH]; intros m; [constructor|].
  cbn [fold_left]. constructor; [|apply IH].
  apply anims_fold_mono, lookup_insert_is_Some'. left. reflexivity.
Qed.

(** After the mount-time load no fade is running and every task has an
    animation handle. *)
Lemma mount_handles_ok (saved : option string) (st0 : App) :
  mount saved = Some st0 -> handles_ok st0.
Proof.
  unfold mount. destruct (loadTasks saved) as [| | v [ks|]]; intros H.
  - injection H as <-. split; [reflexivity | constructor].
  - injection H as <-. split; [reflexivity | constructor].
  - destruct (tasks_of_json v) as [ts|]; [|discriminate].
    injection H as <-. split; [reflexivity | apply anims_of_all].
  - discriminate.
Qed.

(** When deletes do not overlap, the handle guard of [deleteTask] holds
    for every task: once the mount-time load has installed a task list
    (or nothing), after any sequence of operations each task in the
    collection has an animation handle. *)
Theorem sequential_ops_keep_handles (saved : option string) (st0 : App) (os : list op) :
  mount saved = Some st0 ->
  let st := run_ops st0 os in
  fades st = [] /\ Forall (fun t => is_Some (animations st !! id t)) (tasks st).
Proof.
  intros H0. cbv zeta. unfold run_ops.
  pose proof (mount_handles_ok saved st0 H0) as H. clear H0.
  revert st0 H. induction os as [|o os IH]; intros st H; [exact H|].
  cbn [fold_left]. apply IH, handles_ok_step, H.
Qed.

(** The stored value is the serialisation of the current collection. *)
Definition mirrored (st : App) : Prop := storage st = Some (saveTasks (tasks st)).

Lemma mirrored_step st e : mirrored st -> mirrored (step st e).
Proof.
  unfold mirrored. intros H. destruct e as [s | now | i | i | | i |]; cbn [step].
  - exact H.
  - unfold addTask. destruct (str_truthy _); [reflexivity | exact H].
  - reflexivity.
  - unfold editTask. destruct (List.find _ _); exact H.
  - unfold updateTask. destruct (_ && _); [|exact H].
    destruct (editingTask st); [reflexivity | exact H].
  - unfold deleteTask. destruct (animations st !! i); exact H.
  - unfold fade_complete. destruct (fades st) as [|[i ts] rest]; [exact H | reflexivity].
Qed.

(** Every handler that changes the collection (add, toggle, update and the
    fade completion of delete) writes the whole new collection, and the
    others change neither: once the stored value mirrors the collection,
    it does so after any sequence of events, overlapping deletes
    included. *)
Lemma run_mirrored (st : App) (es : list event) : mirrored st -> mirrored (run st es).
Proof.
  unfold run. revert st. induction es as [|e es IH]; intros st H; [exact H|].
  cbn [fold_left]. apply IH, mirrored_step, H.
Qed.

Theorem events_keep_storage_mirrored (st : App) (es : list event) :
  mirrored st -> mirrored (run st es).
Proof. apply run_mirrored. Qed.

(** Consequently, reloading the stored value at any point gives back the
    in-memory collection, with one animation key per task. *)
Theorem reload_gives_current_collection (st : App) (es : list event) :
  mirrored st ->
  let st' := run st es in
  loadTasks (storage st')
  = LoadSetTasks (tasks_to_json (tasks st')) (Some (map (fun t => Some (JStr (id t))) (tasks st')))
  /\ tasks_of_json (tasks_to_json (tasks st')) = Some (tasks st').
Proof.
  intros H st'. subst st'. pose proof (run_mirrored st es H) as Hm.
  unfold mirrored in Hm. rewrite Hm. split; [|apply tasks_of_json_to_json].
  unfold loadTasks. rewrite saveTasks_truthy, JSON_parse_saveTasks.
  unfold tasks_to_json at 2. rewrite forEach_ids_tasks. reflexivity.
Qed.

Lemma mount_saveTasks (ts : list Task) :
  mount (Some (saveTasks ts))
  = Some (mkApp EmptyString ts None (anims_of ts) (Some (saveTasks ts)) []).
Proof.
  unfold mount, loadTasks. rewrite saveTasks_truthy, JSON_parse_saveTasks.
  pose proof (tasks_of_json_to_json ts) as Ht.
  unfold tasks_to_json in *. cbv iota beta. rewrite forEach_ids_tasks, Ht. reflexivity.
Qed.

(** A restart after any events, from a state whose storage mirrors its
    collection: the mount-time load brings back exactly the collection,
    with a fresh animation handle for every task, an empty input, no edit
    target and no running fade. *)
Theorem restart_restores_collection (st : App) (es : list event) :
  mirrored st ->
  let st' := run st es in
  mount (storage st')
  = Some (mkApp EmptyString (tasks st') None (anims_of (tasks st')) (storage st') [])
  /\ Forall (fun t => is_Some (anims_of (tasks st') !! id t)) (tasks st').
Proof.
  intros H st'. subst st'. pose proof (run_mirrored st es H) as Hm.
  unfold mirrored in Hm. rewrite Hm. split; [apply mount_saveTasks | apply anims_of_all].
Qed.

(** Editing a task and committing a new text goes through [tasks.map]
    in [updateTask], not through the first match that [editTask] loaded:
    every task that shares the id (two adds in the same millisecond give
    such tasks) gets the new text, each at its own position and with its
    own completion flag; the other tasks are untouched. *)
Theorem edit_commit_rewrites_every_shared_id (st : App) (i s : string) (t : Task) :
  In t (tasks st) -> id t = i -> i <> EmptyString -> str_truthy (js_trim s) = true ->
  let st' := updateTask (setTask s (editTask i st)) in
  List.length (tasks st') = List.length (tasks st)
  /\ (forall k u, nth_error (tasks st) k = Some u ->
        nth_error (tasks st') k
        = Some (if String.eqb (id u) i then mkTask i s (completed u) else u))
  /\ editingTask st' = None.
Proof.
  intros Hin Hid Hne Hs st'. subst st'.
  destruct (proj2 (edit_first_match i st) t Hin Hid) as (pre & t' & post & _ & _ & _ & ->).
  assert (Htr : opt_truthy (Some i) = true) by (destruct i; [congruence | reflexivity]).
  unfold updateTask, setTask. cbn [task editingTask tasks]. rewrite Hs, Htr. cbn [andb tasks editingTask].
  split; [apply length_map|]. split; [|reflexivity].
  intros k u Hk. rewrite nth_error_map, Hk. cbn [option_map]. unfold retext_item.
  destruct (String.eqb (id u) i) eqn:E; [|reflexivity].
  apply String.eqb_eq in E. rewrite E. reflexivity.
Qed.

Section TaskInvariant.
(** A property of single tasks that [addTask] establishes for the texts it
    accepts, that [updateTask]'s rewrite keeps for the texts it accepts,
    and that [toggleCompletion] keeps for the ids in [T]. *)
Variable P : Task -> Prop.
Variable T : string -> Prop.
Hypothesis P_add : forall (now : N) s, str_truthy (js_trim s) = true -> P (mkTask (pretty now) s false).
Hypothesis P_retext : forall target s t, str_truthy (js_trim s) = true -> P t -> P (retext_item target s t).
Hypothesis P_toggle : forall i t, T i -> P t -> P (toggle_item i t).

(** [P] holds of the collection and of every snapshot a running fade has
    closed over, since a fade's callback installs its snapshot. *)
Definition task_inv (st : App) : Prop :=
  Forall P (tasks st) /\ Forall (fun f => Forall P (snd f)) (fades st).

Definition event_ok (e : event) : Prop :=
  match e with EToggle i => T i | _ => True end.

Lemma task_inv_step st e : event_ok e -> task_inv st -> task_inv (step st e).
Proof.
  intros He [Ht Hf]. destruct e as [s | now | i | i | | i |]; cbn [step].
  - split; assumption.
  - unfold addTask. destruct (str_truthy (js_trim (task st))) eqn:E; [|split; assumption].
    split; [|exact Hf]. cbn [tasks]. apply Forall_app. split; [exact Ht|].
    constructor; [apply P_add, E | constructor].
  - split; [|exact Hf]. cbn [tasks toggleCompletion]. apply Forall_map.
    eapply Forall_impl; [exact Ht|]. intros u Hu. apply P_toggle; assumption.
  - unfold editTask. destruct (List.find _ _); split; assumption.
  - unfold updateTask. destruct (str_truthy (js_trim (task st))) eqn:E; [|split; assumption].
    destruct (opt_truthy (editingTask st)); [|split; assumption]. cbn [andb].
    destruct (editingTask st) as [target|]; [|split; assumption].
    split; [|exact Hf]. cbn [tasks]. apply Forall_map.
    eapply Forall_impl; [exact Ht|]. intros u Hu. apply P_retext; assumption.
  - unfold deleteTask. destruct (animations st !! i); [|split; assumption].
    split; [exact Ht|]. cbn [fades]. apply Forall_app. split; [exact Hf|].
    constructor; [exact Ht | constructor].
  - unfold fade_complete. destruct (fades st) as [|[i ts] rest] eqn:Efs; [split; [exact Ht | rewrite Efs; exact Hf]|].
    apply Forall_cons_1 in Hf as [Hts Hrest]. cbn [snd] in Hts.
    split; [|exact Hrest]. cbn [tasks]. apply Forall_forall. intros u Hu.
    apply list_elem_of_filter in Hu as [_ Hu]. rewrite Forall_forall in Hts. apply Hts, Hu.
Qed.

Lemma task_inv_run st es : task_inv st -> Forall event_ok es -> task_inv (run st es).
Proof.
  unfold run. revert st. induction es as [|e es IH]; intros st H Hes; [exact H|].
  apply Forall_cons_1 in Hes as [He Hes]. cbn [fold_left]. apply IH; [|exact Hes].
  apply task_inv_step; assumption.
Qed.
End TaskInvariant.

Lemma task_inv_mount (P : Task -> Prop) (saved : option string) (st0 : App) :
  mount saved = Some st0 -> Forall P (tasks st0) -> task_inv P st0.
Proof.
  intros H Ht. split; [exact Ht|]. destruct (mount_handles_ok saved st0 H) as [Hf _].
  rewrite Hf. constructor.
Qed.

Definition not_toggle (e : event) : Prop :=
  match e with EToggle _ => False | _ => True end.

(** Only [toggleCompletion] ever sets [completed]: [addTask] creates tasks
    with [completed: false], [updateTask] copies the flag and the fade
    callbacks install earlier collections. So when none of the tasks the
    mount-time load restores is completed, a run with no toggle event
    leaves every task not completed, whatever deletes and fades it
    contains. *)
Theorem no_toggle_none_completed (saved : option string) (st0 : App) (es : list event) :
  mount saved = Some st0 -> Forall (fun t => completed t = false) (tasks st0) ->
  Forall not_toggle es ->
  Forall (fun t => completed t = false) (tasks (run st0 es)).
Proof.
  intros H0 Ht0 Hes.
  apply (task_inv_run (fun t => completed t = false) (fun _ => False)); cycle 3.
  - exact (task_inv_mount _ saved st0 H0 Ht0).
  - eapply Forall_impl; [exact Hes|]. intros [] H; exact H.
  - reflexivity.
  - intros target s t _ Ht. unfold retext_item. destruct (String.eqb _ _); [exact Ht | exact Ht].
  - intros i t [].
Qed.

(** The trim guards of [addTask] (line 40) and [updateTask] (line 78)
    keep blank texts out: when every task the mount-time load restores
    has a non-whitespace character, so has every task's text after any
    events (toggles, edits, overlapping deletes included). *)
Theorem tasks_never_blank (saved : option string) (st0 : App) (es : list event) :
  mount saved = Some st0 -> Forall (fun t => str_truthy (js_trim (text t)) = true) (tasks st0) ->
  Forall (fun t => str_truthy (js_trim (text t)) = true) (tasks (run st0 es)).
Proof.
  intros H0 Ht0.
  apply (task_inv_run (fun t => str_truthy (js_trim (text t)) = true) (fun _ => True)).
  - intros now s Hs. exact Hs.
  - intros target s t Hs Ht. unfold retext_item. destruct (String.eqb _ _); [exact Hs | exact Ht].
  - intros i t _ Ht. unfold toggle_item. destruct (String.eqb _ _); exact Ht.
  - exact (task_inv_mount _ saved st0 H0 Ht0).
  - apply Forall_forall. intros e _. destruct e; exact I.
Qed.

(* ------------------------------------------------------------------ *)
(** ** Witnesses of the further properties *)

Definition app_milk : App := run (initial_app None) [ESetText "Buy milk"; EAdd 7].

Lemma edit_then_commit_unchanged_witness :
  NoDup (task_ids app_milk) /\ In (mkTask "7" "Buy milk" false) (tasks app_milk)
  /\ id (mkTask "7" "Buy milk" false) <> EmptyString
  /\ str_truthy (js_trim (text (mkTask "7" "Buy milk" false))) = true
  /\ (let st' := updateTask (editTask (id (mkTask "7" "Buy milk" false)) app_milk) in
      tasks st' = tasks app_milk /\ storage st' = Some (saveTasks (tasks app_milk))
      /\ task st' = EmptyString /\ editingTask st' = None).
Proof.
  assert (Hd : NoDup (task_ids app_milk)) by (constructor; [apply not_elem_of_nil | constructor]).
  assert (Hi : In (mkTask "7" "Buy milk" false) (tasks app_milk)) by (left; reflexivity).
  assert (Hn : id (mkTask "7" "Buy milk" false) <> EmptyString) by discriminate.
  assert (Ht : str_truthy (js_trim (text (mkTask "7" "Buy milk" false))) = true) by reflexivity.
  split; [exact Hd|]. split; [exact Hi|]. split; [exact Hn|]. split; [exact Ht|].
  exact (edit_then_commit_unchanged (mkTask "7" "Buy milk" false) app_milk Hd Hi Hn Ht).
Defined.

Lemma press_while_editing_never_adds_witness :
  opt_truthy (editingTask app_editing_7) = true
  /\ press 8 app_editing_7 = updateTask app_editing_7
  /\ List.length (tasks (press 8 app_editing_7)) = List.length (tasks app_editing_7).
Proof.
  assert (H : opt_truthy (editingTask app_editing_7) = true) by reflexivity.
  split; [exact H|]. exact (press_while_editing_never_adds 8 app_editing_7 H).
Defined.

Lemma load_array_payload_witness :
  JSON_parse "[1,null]" = Some (JArr [JNum "1"; JNull])
  /\ (forall prior, tasks_after_load prior (loadTasks (Some "[1,null]")) = JArr [JNum "1"; JNull])
  /\ (load_error (loadTasks (Some "[1,null]")) = Some TypeError <-> In JNull [JNum "1"; JNull])
  /\ (forall ks, loadTasks (Some "[1,null]") = LoadSetTasks (JArr [JNum "1"; JNull]) (Some ks) ->
        List.length ks = List.length [JNum "1"; JNull]).
Proof.
  assert (H : JSON_parse "[1,null]" = Some (JArr [JNum "1"; JNull])) by reflexivity.
  split; [exact H|]. exact (load_array_payload "[1,null]" [JNum "1"; JNull] H).
Defined.

Definition events_after_one : list event := [EDelete "1"; ESetText "B"; EAdd 2; EFadeDone].

Lemma events_keep_storage_mirrored_witness :
  mirrored app_one /\ mirrored (run app_one events_after_one).
Proof.
  assert (H : mirrored app_one) by reflexivity.
  split; [exact H|]. exact (events_keep_storage_mirrored app_one events_after_one H).
Defined.

Lemma reload_gives_current_collection_witness :
  mirrored app_one
  /\ (let st' := run app_one events_after_one in
      loadTasks (storage st')
      = LoadSetTasks (tasks_to_json (tasks st')) (Some (map (fun t => Some (JStr (id t))) (tasks st')))
      /\ tasks_of_json (tasks_to_json (tasks st')) = Some (tasks st')).
Proof.
  assert (H : mirrored app_one) by reflexivity.
  split; [exact H|]. exact (reload_gives_current_collection app_one events_after_one H).
Defined.

Definition app_same_clock : App :=
  run (initial_app None) [ESetText "a"; EAdd 5; ESetText "b"; EAdd 5].

Lemma edit_commit_rewrites_every_shared_id_witness :
  In (mkTask "5" "b" false) (tasks app_same_clock) /\ id (mkTask "5" "b" false) = "5"
  /\ "5" <> EmptyString /\ str_truthy (js_trim "c") = true
  /\ (let st' := updateTask (setTask "c" (editTask "5" app_same_clock)) in
      List.length (tasks st') = List.length (tasks app_same_clock)
      /\ (forall k u, nth_error (tasks app_same_clock) k = Some u ->
            nth_error (tasks st') k
            = Some (if String.eqb (id u) "5" then mkTask "5" "c" (completed u) else u))
      /\ editingTask st' = None).
Proof.
  assert (Hi : In (mkTask "5" "b" false) (tasks app_same_clock)) by (right; left; reflexivity).
  assert (Hid : id (mkTask "5" "b" false) = "5") by reflexivity.
  assert (Hn : "5" <> EmptyString) by discriminate.
  assert (Hs : str_truthy (js_trim "c") = true) by reflexivity.
  split; [exact Hi|]. split; [exact Hid|]. split; [exact Hn|]. split; [exact Hs|].
  exact (edit_commit_rewrites_every_shared_id app_same_clock "5" "c" (mkTask "5" "b" false) Hi Hid Hn Hs).
Defined.

(** The value [saveTasks] writes for one open task, and the state the
    mount-time load makes of it. *)
Definition saved_one : string := saveTasks [mkTask "1" "A" false].

Definition app_restored_one : App :=
  mkApp EmptyString [mkTask "1" "A" false] None (<["1" := 1%Z]> ∅) (Some saved_one) [].

Definition ops_after_restore : list op :=
  [OSetText "B"; OAdd 2; OToggle "1"; OEdit "2"; OSetText "C"; OUpdate; ODelete "1"].

Lemma sequential_ops_keep_handles_witness :
  mount (Some saved_one) = Some app_restored_one
  /\ (let st := run_ops app_restored_one ops_after_restore in
      fades st = [] /\ Forall (fun t => is_Some (animations st !! id t)) (tasks st)).
Proof.
  assert (H : mount (Some saved_one) = Some app_restored_one) by (vm_compute; reflexivity).
  split; [exact H|].
  exact (sequential_ops_keep_handles (Some saved_one) app_restored_one ops_after_restore H).
Defined.

Definition events_no_toggle : list event :=
  [ESetText "a"; EAdd 1; EEdit "1"; ESetText "b"; EUpdate; ESetText "c"; EAdd 2; EDelete "1"; EFadeDone].

Lemma no_toggle_none_completed_witness :
  mount (Some saved_one) = Some app_restored_one
  /\ Forall (fun t => completed t = false) (tasks app_restored_one)
  /\ Forall not_toggle events_no_toggle
  /\ Forall (fun t => completed t = false) (tasks (run app_restored_one events_no_toggle)).
Proof.
  assert (H : mount (Some saved_one) = Some app_restored_one) by (vm_compute; reflexivity).
  assert (Ht : Forall (fun t => completed t = false) (tasks app_restored_one))
    by (constructor; [reflexivity | constructor]).
  assert (He : Forall not_toggle events_no_toggle) by (repeat constructor).
  split; [exact H|]. split; [exact Ht|]. split; [exact He|].
  exact (no_toggle_none_completed (Some saved_one) app_restored_one events_no_toggle H Ht He).
Defined.

Lemma tasks_never_blank_witness :
  mount (Some saved_one) = Some app_restored_one
  /\ Forall (fun t => str_truthy (js_trim (text t)) = true) (tasks app_restored_one)
  /\ Forall (fun t => str_truthy (js_trim (text t)) = true)
       (tasks (run app_restored_one overlapping_deletes)).
Proof.
  assert (H : mount (Some saved_one) = Some app_restored_one) by (vm_compute; reflexivity).
  assert (Ht : Forall (fun t => str_truthy (js_trim (text t)) = true) (tasks app_restored_one))
    by (constructor; [reflexivity | constructor]).
  split; [exact H|]. split; [exact Ht|].
  exact (tasks_never_blank (Some saved_one) app_restored_one overlapping_deletes H Ht).
Defined.

Lemma restart_restores_collection_witness :
  mirrored app_one
  /\ (let st' := run app_one events_after_one in
      mount (storage st')
      = Some (mkApp EmptyString (tasks st') None (anims_of (tasks st')) (storage st') [])
      /\ Forall (fun t => is_Some (anims_of (tasks st') !! id t)) (tasks st')).
Proof.
  assert (H : mirrored app_one) by reflexivity.
  split; [exact H|]. exact (restart_restores_collection app_one events_after_one H).
Defined.
